(** * async_simple: coro/LazyLocalBase.h

    A shallow embedding of the coroutine-local storage handle
    [LazyLocalBase], of the CRTP helper [LazyLocalBaseImpl<Derived>], of the
    generic wrapper [SimpleLazyLocal<T>] and of the hand-written downcast
    [LazyLocalBase::dynamicCast<T>()], together with the properties of the
    downcast that the specification states.

    Layout of the development:
    - [ctype]: the C++ types that can instantiate the three templates;
    - the compile-time predicates [is_same_v], [is_base_of_v] and the concept
      [isDerivedFromLazyLocal];
    - [Layout]: where the implementation places the static [typeTag] objects;
    - objects, the store, and a small state-and-fault monad [M];
    - constructors, [empty], [isMe], [dynamicCast], the destructor;
    - programs: [op], the calls on the three kinds of handle, and [call],
      every public member, the copy operations included;
    - the theorems. *)

From stdpp Require Import base decidable countable strings gmap fin_maps list.

Open Scope string_scope.

(** ** Types *)

(** The types a program can hand to the templates of the header.
    [TyUser n] is a class of the client written in the idiom the header is
    made for, [struct n : LazyLocalBaseImpl<n> { ... }]; [TyPlain n] is any
    type outside the hierarchy ([int], [double], [std::string], ...). *)
Inductive ctype : Type :=
| TyLazyLocalBase
| TyLazyLocalBaseImpl (Derived : ctype)
| TySimpleLazyLocal (T : ctype)
| TyUser (name : string)
| TyPlain (name : string).

#[global] Instance ctype_eq_dec : EqDecision ctype.
Proof. solve_decision. Defined.

(** [std::is_same_v<A, B>]. *)
Definition is_same_v (A B : ctype) : bool := bool_decide (A = B).

(** The base classes of a class, nearest first, as the header declares them:
    [class LazyLocalBaseImpl : public LazyLocalBase] (line 48) and
    [struct SimpleLazyLocal : public LazyLocalBaseImpl<SimpleLazyLocal<T>>]
    (line 61). *)
Definition base_classes (T : ctype) : list ctype :=
  match T with
  | TyLazyLocalBase => []
  | TyLazyLocalBaseImpl _ => [TyLazyLocalBase]
  | TySimpleLazyLocal X =>
      [TyLazyLocalBaseImpl (TySimpleLazyLocal X); TyLazyLocalBase]
  | TyUser n => [TyLazyLocalBaseImpl (TyUser n); TyLazyLocalBase]
  | TyPlain _ => []
  end.

(** [std::is_base_of_v<Base, Derived>], for [Base] a class of the hierarchy:
    [Base] is [Derived] itself or one of its base classes. *)
Definition is_base_of_v (Base Derived : ctype) : bool :=
  bool_decide (Base ∈ Derived :: base_classes Derived).

(** Line 58: [concept isDerivedFromLazyLocal =
    std::is_base_of_v<LazyLocalBaseImpl<T>, T>]. *)
Definition isDerivedFromLazyLocal (T : ctype) : bool :=
  is_base_of_v (TyLazyLocalBaseImpl T) T.

(** ** Addresses and the static tags *)

Definition addr : Type := N.
Definition nullptr : addr := 0%N.

(** Line 54: every instantiation [LazyLocalBaseImpl<Derived>] owns one
    [inline static detail::LazyLocalBaseTypeTag typeTag{}].  Where the
    implementation places these objects is not the header's business; what
    C++ promises is that they are distinct complete objects of one type, so
    they live at distinct addresses, none of them null. *)
Record Layout : Type := {
  typeTag : ctype → addr;
  typeTag_inj : ∀ D1 D2, typeTag D1 = typeTag D2 → D1 = D2;
  typeTag_nonnull : ∀ D, typeTag D ≠ nullptr
}.

(** A layout exists: number the instantiations. *)
Fixpoint ctype_to_tree (T : ctype) : gen_tree (option (bool * string)) :=
  match T with
  | TyLazyLocalBase => GenLeaf None
  | TyLazyLocalBaseImpl D => GenNode 0 [ctype_to_tree D]
  | TySimpleLazyLocal X => GenNode 1 [ctype_to_tree X]
  | TyUser n => GenLeaf (Some (false, n))
  | TyPlain n => GenLeaf (Some (true, n))
  end.

Fixpoint tree_to_ctype (t : gen_tree (option (bool * string))) : option ctype :=
  match t with
  | GenLeaf None => Some TyLazyLocalBase
  | GenLeaf (Some (false, n)) => Some (TyUser n)
  | GenLeaf (Some (true, n)) => Some (TyPlain n)
  | GenNode 0 [t'] => TyLazyLocalBaseImpl <$> tree_to_ctype t'
  | GenNode 1 [t'] => TySimpleLazyLocal <$> tree_to_ctype t'
  | GenNode _ _ => None
  end.

#[global] Instance ctype_countable : Countable ctype.
Proof.
  refine (inj_countable ctype_to_tree tree_to_ctype _).
  intros T. induction T as [|D IH|X IH|n|n]; simpl; rewrite ?IH; done.
Defined.

Definition numbered_typeTag (D : ctype) : addr := Npos (encode D).

Definition numbered_layout : Layout.
Proof.
  refine {| typeTag := numbered_typeTag |}.
  - unfold numbered_typeTag. intros D1 D2 [= H]. by apply (inj encode).
  - done.
Defined.

(** ** Objects and the store *)

(** Lines 29-45: the only data member of [LazyLocalBase]. *)
Record LazyLocalBase : Type := mkLazyLocalBase { _typeinfo : addr }.

(** A complete object is of one of the classes the header makes: a bare
    [LazyLocalBase]; an instance of a client class [struct n :
    LazyLocalBaseImpl<n>]; a [SimpleLazyLocal<T>] with its payload (line 64:
    [T localValue]); these are the three kinds of handle of the
    specification.  The fourth kind is a [LazyLocalBaseImpl<Derived>] that
    is a complete object of its own: its constructor (line 50) is public,
    so [LazyLocalBaseImpl<D> y;] is a program, for any [D].  Each object
    carries its [LazyLocalBase] subobject; [_typeinfo] is stored, not
    computed from the kind of the object.  Payloads are values of one
    universe [value].  Client classes derived from another client class are
    not in this universe. *)
Inductive object (value : Type) : Type :=
| ObjLazyLocalBase (base : LazyLocalBase)
| ObjUser (name : string) (base : LazyLocalBase) (members : value)
| ObjSimpleLazyLocal (T : ctype) (base : LazyLocalBase) (localValue : value)
| ObjLazyLocalBaseImpl (Derived : ctype) (base : LazyLocalBase).
Arguments ObjLazyLocalBase {value} base.
Arguments ObjUser {value} name base members.
Arguments ObjSimpleLazyLocal {value} T base localValue.
Arguments ObjLazyLocalBaseImpl {value} Derived base.

Definition base_of {value} (o : object value) : LazyLocalBase :=
  match o with
  | ObjLazyLocalBase b | ObjUser _ b _ | ObjSimpleLazyLocal _ b _
  | ObjLazyLocalBaseImpl _ b => b
  end.

(** The same object with another [LazyLocalBase] subobject. *)
Definition with_base {value} (b : LazyLocalBase) (o : object value) : object value :=
  match o with
  | ObjLazyLocalBase _ => ObjLazyLocalBase b
  | ObjUser n _ m => ObjUser n b m
  | ObjSimpleLazyLocal T _ v => ObjSimpleLazyLocal T b v
  | ObjLazyLocalBaseImpl D _ => ObjLazyLocalBaseImpl D b
  end.

(** Whether the object is one of the three kinds of handle. *)
Definition handle_kind {value} (o : object value) : bool :=
  match o with
  | ObjLazyLocalBaseImpl _ _ => false
  | _ => true
  end.

(** The class the object was created as (its most derived class). *)
Definition dynamic_type {value} (o : object value) : ctype :=
  match o with
  | ObjLazyLocalBase _ => TyLazyLocalBase
  | ObjUser n _ _ => TyUser n
  | ObjSimpleLazyLocal T _ _ => TySimpleLazyLocal T
  | ObjLazyLocalBaseImpl D _ => TyLazyLocalBaseImpl D
  end.

(** What [dynamicCast<T>()] returns, a [T*]: null, the object at an address
    (as [this] or as [static_cast<T*>(this)]), or the member [localValue] of
    the wrapper at an address. *)
Inductive pointer : Type :=
| Null
| ObjectAt (a : addr)
| LocalValueOf (a : addr).

#[global] Instance pointer_eq_dec : EqDecision pointer.
Proof. solve_decision. Defined.

(** [p->localValue] seen from a pointer to a wrapper. *)
Definition member_localValue (p : pointer) : pointer :=
  match p with
  | ObjectAt a => LocalValueOf a
  | _ => Null
  end.

Abbreviation store value := (gmap addr (object value)).

(** Reading through a pointer to a payload. *)
Definition deref {value} (s : store value) (p : pointer) : option value :=
  match p with
  | LocalValueOf a =>
      match s !! a with
      | Some (ObjSimpleLazyLocal _ _ v) => Some v
      | _ => None
      end
  | _ => None
  end.

(** ** Computations on the store

    A member function is a function of the store that either faults (the
    C++ program has undefined behaviour) or returns a result and the store
    it leaves. *)
Definition M (value A : Type) : Type := store value → option (A * store value).

Definition ret {value A} (x : A) : M value A := λ s, Some (x, s).

Definition bind {value A B} (c : M value A) (k : A → M value B) : M value B :=
  λ s, match c s with
       | Some (x, s') => k x s'
       | None => None
       end.

Definition fault {value A} : M value A := λ _, None.

Notation "'let!' x ':=' c 'in' k" := (bind c (λ x, k))
  (at level 10, x name, c at level 100, k at level 200).

(** Reading the object a handle points to. *)
Definition load {value} (p : addr) : M value (object value) :=
  λ s, match s !! p with
       | Some o => Some (o, s)
       | None => None
       end.

(** Running a constructor on free storage at [this]. *)
Definition place {value} (o : object value) (this : addr) : M value unit :=
  λ s, if decide (this = nullptr) then None
       else match s !! this with
            | Some _ => None
            | None => Some ((), <[this := o]> s)
            end.

(** ** The header *)

Section Header.
Context {value : Type}.
Variable L : Layout.

#[local] Abbreviation object := (object value).
#[local] Abbreviation M := (M value).

(** Line 33, the private constructor:
    [LazyLocalBase(detail::LazyLocalBaseTypeTag* typeinfo) :
    _typeinfo(typeinfo)]. *)
Definition LazyLocalBase_ctor (typeinfo : addr) : LazyLocalBase :=
  {| _typeinfo := typeinfo |}.

(** Line 37: [LazyLocalBase(std::nullptr_t) : _typeinfo(nullptr)]. *)
Definition LazyLocalBase_ctor_nullptr : LazyLocalBase :=
  {| _typeinfo := nullptr |}.

(** Line 50: [LazyLocalBaseImpl() : LazyLocalBase(&typeTag)]. *)
Definition LazyLocalBaseImpl_ctor (Derived : ctype) : LazyLocalBase :=
  LazyLocalBase_ctor (typeTag L Derived).

(** Line 63: the base class is initialised first, then
    [localValue(std::forward<Args>(args)...)]; [v] is the payload the
    arguments build. *)
Definition SimpleLazyLocal_ctor (T : ctype) (v : value) : object :=
  ObjSimpleLazyLocal T (LazyLocalBaseImpl_ctor (TySimpleLazyLocal T)) v.

(** The constructor of a client class [struct n : LazyLocalBaseImpl<n>]:
    it can reach [LazyLocalBase] through [LazyLocalBaseImpl<n>()] only. *)
Definition User_ctor (n : string) (members : value) : object :=
  ObjUser n (LazyLocalBaseImpl_ctor (TyUser n)) members.

Definition new_LazyLocalBase (this : addr) : M unit :=
  place (ObjLazyLocalBase LazyLocalBase_ctor_nullptr) this.

Definition new_User (n : string) (members : value) (this : addr) : M unit :=
  place (User_ctor n members) this.

Definition new_SimpleLazyLocal (T : ctype) (v : value) (this : addr) : M unit :=
  place (SimpleLazyLocal_ctor T v) this.

(** Line 41: [virtual ~LazyLocalBase(){}]; the object is gone. *)
Definition destroy (this : addr) : M unit :=
  λ s, match s !! this with
       | Some _ => Some ((), delete this s)
       | None => None
       end.

(** Line 40: [bool empty() const noexcept { return _typeinfo == nullptr; }] *)
Definition empty (this : addr) : M bool :=
  let! o := load this in
  ret (bool_decide (_typeinfo (base_of o) = nullptr)).

(** Line 51, in [LazyLocalBaseImpl<Derived>]:
    [static bool isMe(LazyLocalBase* p) { return p->_typeinfo == &typeTag; }] *)
Definition isMe (Derived : ctype) (p : addr) : M bool :=
  let! o := load p in
  ret (bool_decide (_typeinfo (base_of o) = typeTag L Derived)).

(** [static_cast<T*>(this)] from the base to a derived class: defined when
    the object [this] points into is a [T] (or of a class derived from
    [T]), undefined behaviour otherwise. *)
Definition static_cast (T : ctype) (this : addr) : M pointer :=
  let! o := load this in
  if is_base_of_v T (dynamic_type o) then ret (ObjectAt this) else fault.

(** [&p->localValue], for [p] a [SimpleLazyLocal<T>*]. *)
Definition addressof_localValue (p : pointer) : M pointer :=
  match p with
  | ObjectAt a =>
      let! o := load a in
      match o with
      | ObjSimpleLazyLocal _ _ _ => ret (member_localValue p)
      | _ => fault
      end
  | _ => fault
  end.

(** Lines 67-85.  [T::isMe], for a [T] accepted by the concept, is the
    [isMe] that [T] inherits from [LazyLocalBaseImpl<T>]. *)
Definition dynamicCast (T : ctype) (this : addr) : M pointer :=
  if is_same_v TyLazyLocalBase T then
    ret (ObjectAt this)
  else if isDerivedFromLazyLocal T then
    let! me := isMe T this in
    if me then static_cast T this
    else ret Null
  else
    let! me := isMe (TySimpleLazyLocal T) this in
    if me then
      let! w := static_cast (TySimpleLazyLocal T) this in
      addressof_localValue w
    else ret Null.

(** Calling the same member function [n] times in a row, results in order. *)
Fixpoint ntimes {A} (n : nat) (c : M A) : M (list A) :=
  match n with
  | O => ret []
  | S n' => let! r := c in let! rs := ntimes n' c in ret (r :: rs)
  end.

(** ** Programs over the header

    What a client does with the three kinds of handle through the members
    the header writes out for them, one call at a time; results are
    dropped, the store is kept.  The other public members (the constructor
    of [LazyLocalBaseImpl] run for a complete object, the copy operations
    of [LazyLocalBase]) come with [call] below. *)
Inductive op : Type :=
| NewLazyLocalBase (this : addr)
| NewUser (n : string) (members : value) (this : addr)
| NewSimpleLazyLocal (T : ctype) (v : value) (this : addr)
| CallEmpty (this : addr)
| CallIsMe (Derived : ctype) (p : addr)
| CallDynamicCast (T : ctype) (this : addr)
| Delete (this : addr).

Definition exec (c : op) : M unit :=
  match c with
  | NewLazyLocalBase this => new_LazyLocalBase this
  | NewUser n m this => new_User n m this
  | NewSimpleLazyLocal T v this => new_SimpleLazyLocal T v this
  | CallEmpty this => let! _ := empty this in ret ()
  | CallIsMe D p => let! _ := isMe D p in ret ()
  | CallDynamicCast T this => let! _ := dynamicCast T this in ret ()
  | Delete this => destroy this
  end.

Fixpoint run (cs : list op) : M unit :=
  match cs with
  | [] => ret ()
  | c :: cs' => let! _ := exec c in run cs'
  end.

(** The stores a program of [op] builds from nothing: they hold handles of
    the three kinds, each as its constructor left it. *)
Definition reachable (s : store value) : Prop :=
  ∃ cs, run cs ∅ = Some ((), s).

(** The addresses a program destroys. *)
Fixpoint deleted (cs : list op) : list addr :=
  match cs with
  | [] => []
  | Delete a :: cs' => a :: deleted cs'
  | _ :: cs' => deleted cs'
  end.

(** The tag a downcast to [T] compares with: [T]'s own when [T] is a typed
    derivation (line 73), [SimpleLazyLocal<T>]'s otherwise (line 79). *)
Definition token_class (T : ctype) : ctype :=
  if isDerivedFromLazyLocal T then T else TySimpleLazyLocal T.

(** An instance of a typed derivation [D], built by its constructor. *)
Definition instance_of (D : ctype) (v : value) : option object :=
  match D with
  | TyUser n => Some (User_ctor n v)
  | TySimpleLazyLocal T => Some (SimpleLazyLocal_ctor T v)
  | _ => None
  end.

(** The tag the constructors give an object of each kind. *)
Definition stamp_of (o : object) : addr :=
  match o with
  | ObjLazyLocalBase _ => nullptr
  | ObjUser n _ _ => typeTag L (TyUser n)
  | ObjSimpleLazyLocal T _ _ => typeTag L (TySimpleLazyLocal T)
  | ObjLazyLocalBaseImpl D _ => typeTag L D
  end.

(** A handle as its constructor leaves it: an empty [LazyLocalBase], an
    instance of a client's typed derivation or a [SimpleLazyLocal], with
    the tag that constructor stored. *)
Definition as_built (o : object) : Prop :=
  handle_kind o = true ∧ _typeinfo (base_of o) = stamp_of o.

Definition stamped (s : store value) : Prop :=
  ∀ a o, s !! a = Some o → as_built o.


(** ** Every public member

    Line 50 run for a complete object: [LazyLocalBaseImpl<D> y;]. *)
Definition new_LazyLocalBaseImpl (D : ctype) (this : addr) : M unit :=
  place (ObjLazyLocalBaseImpl D (LazyLocalBaseImpl_ctor D)) this.

(** Lines 29-45 declare no copy operation, so [LazyLocalBase] has the
    public copy constructor and copy assignment of the language, which copy
    [_typeinfo].  [LazyLocalBase b = *src;] builds a bare [LazyLocalBase]
    from the base subobject of any handle. *)
Definition copy_LazyLocalBase (src this : addr) : M unit :=
  let! o := load src in
  place (ObjLazyLocalBase {| _typeinfo := _typeinfo (base_of o) |}) this.

(** [*this = *src;] through two [LazyLocalBase*]: the base subobject of the
    object at [this] takes the [_typeinfo] of the one at [src]. *)
Definition assign_LazyLocalBase (this src : addr) : M unit :=
  let! o := load this in
  let! o' := load src in
  λ s, Some ((), <[this := with_base {| _typeinfo := _typeinfo (base_of o') |} o]> s).

(** The calls of [op] and the three above. *)
Inductive call : Type :=
| Written (c : op)
| NewLazyLocalBaseImpl (D : ctype) (this : addr)
| CopyConstruct (src this : addr)
| CopyAssign (this src : addr).

Definition exec_call (c : call) : M unit :=
  match c with
  | Written c' => exec c'
  | NewLazyLocalBaseImpl D this => new_LazyLocalBaseImpl D this
  | CopyConstruct src this => copy_LazyLocalBase src this
  | CopyAssign this src => assign_LazyLocalBase this src
  end.

Fixpoint run_calls (cs : list call) : M unit :=
  match cs with
  | [] => ret ()
  | c :: cs' => let! _ := exec_call c in run_calls cs'
  end.



End Header.

(** ** A concrete program

    The numbered layout, integer payloads, and handles at addresses 8, 16
    and 24: the scenarios of the specification ("wrap an integer value 42",
    "construct an empty handle"). *)

Definition int : ctype := TyPlain "int".
Definition double : ctype := TyPlain "double".
Definition Counter : ctype := TyUser "Counter".
Definition Logger : ctype := TyUser "Logger".

Definition wrapped_42 : store Z :=
  <[8%N := SimpleLazyLocal_ctor numbered_layout int 42%Z]> ∅.

Definition two_counters : store Z :=
  <[16%N := User_ctor numbered_layout "Counter" 2%Z]>
    (<[8%N := User_ctor numbered_layout "Counter" 1%Z]> ∅).



(** A bare [LazyLocalBase] that carries the tag of [SimpleLazyLocal<int>],
    as a copy of the base of such a wrapper does. *)
Definition forged_base : store Z :=
  <[8%N := ObjLazyLocalBase
             (LazyLocalBase_ctor
                (typeTag numbered_layout (TySimpleLazyLocal int)))]> ∅.

(** The number of template applications and names a type is written with. *)
Fixpoint ctype_size (T : ctype) : nat :=
  match T with
  | TyLazyLocalBase | TyUser _ | TyPlain _ => 1
  | TyLazyLocalBaseImpl D => S (ctype_size D)
  | TySimpleLazyLocal X => S (ctype_size X)
  end.

(** ** Proof automation *)

(** Opens a computation made of [bind], [load] and [ret] along the cases of
    its lookups and tests. *)
Ltac open_call :=
  repeat first
    [ progress (unfold bind, load, ret, fault in * )
    | match goal with
      | H : Some _ = Some _ |- _ => injection H as ? ?; subst
      | H : None = Some _ |- _ => discriminate H
      | H : context [match ?m !! ?k with _ => _ end] |- _ =>
          destruct (m !! k) eqn:?
      | H : context [if ?b then _ else _] |- _ => destruct b eqn:?
      | H : context [match ?x with _ => _ end] |- _ => destruct x eqn:?
      end ].

(** ** The compile-time dispatch *)

Lemma TyLazyLocalBaseImpl_neq D : TyLazyLocalBaseImpl D ≠ D.
Proof. induction D; congruence. Qed.

Lemma isDerivedFromLazyLocal_User n : isDerivedFromLazyLocal (TyUser n) = true.
Proof. apply bool_decide_eq_true. set_solver. Qed.

Lemma isDerivedFromLazyLocal_Simple X :
  isDerivedFromLazyLocal (TySimpleLazyLocal X) = true.
Proof. apply bool_decide_eq_true. set_solver. Qed.

Lemma isDerivedFromLazyLocal_Base : isDerivedFromLazyLocal TyLazyLocalBase = false.
Proof. reflexivity. Qed.

Lemma isDerivedFromLazyLocal_Plain n : isDerivedFromLazyLocal (TyPlain n) = false.
Proof.
  apply bool_decide_eq_false. simpl.
  rewrite !elem_of_cons, elem_of_nil. by intros [H | []].
Qed.

Lemma isDerivedFromLazyLocal_Impl D :
  isDerivedFromLazyLocal (TyLazyLocalBaseImpl D) = false.
Proof.
  apply bool_decide_eq_false. simpl.
  rewrite !elem_of_cons, elem_of_nil.
  intros [H | [H | []]]; [|done].
  by apply TyLazyLocalBaseImpl_neq in H.
Qed.

(** The concept accepts exactly the client classes and the wrappers. *)
Lemma isDerivedFromLazyLocal_spec T :
  isDerivedFromLazyLocal T = true ↔
  (∃ n, T = TyUser n) ∨ (∃ X, T = TySimpleLazyLocal X).
Proof.
  split.
  - destruct T as [|D|X|n|n]; intros H.
    + by rewrite isDerivedFromLazyLocal_Base in H.
    + by rewrite isDerivedFromLazyLocal_Impl in H.
    + right; eauto.
    + left; eauto.
    + by rewrite isDerivedFromLazyLocal_Plain in H.
  - intros [[n Hn] | [X HX]]; subst T;
      auto using isDerivedFromLazyLocal_User, isDerivedFromLazyLocal_Simple.
Qed.

Lemma is_same_v_false T : T ≠ TyLazyLocalBase → is_same_v TyLazyLocalBase T = false.
Proof. intros H. apply bool_decide_eq_false. congruence. Qed.

Lemma is_base_of_v_refl T : is_base_of_v T T = true.
Proof. apply bool_decide_eq_true. set_solver. Qed.

(** ** The calls, one at a time *)

Section Calls.
Context {value : Type}.
Variable L : Layout.
Implicit Types (s : store value) (o : object value) (T D : ctype)
  (this p : addr).

Lemma place_free o this s :
  this ≠ nullptr → s !! this = None →
  place o this s = Some ((), <[this := o]> s).
Proof. intros Hn Hf. unfold place. rewrite decide_False, Hf; done. Qed.

Lemma place_inv o this s u s' :
  place o this s = Some (u, s') →
  this ≠ nullptr ∧ s !! this = None ∧ s' = <[this := o]> s.
Proof.
  unfold place. destruct (decide (this = nullptr)); [done|].
  destruct (s !! this) eqn:E; [done|]. by intros [= <- <-].
Qed.

Lemma load_eq s p o : s !! p = Some o → load p s = Some (o, s).
Proof. intros H. unfold load. by rewrite H. Qed.

Lemma empty_eq s this o :
  s !! this = Some o →
  empty this s = Some (bool_decide (_typeinfo (base_of o) = nullptr), s).
Proof. intros H. unfold empty, bind. by rewrite (load_eq _ _ _ H). Qed.

Lemma isMe_eq s D p o :
  s !! p = Some o →
  isMe L D p s = Some (bool_decide (_typeinfo (base_of o) = typeTag L D), s).
Proof. intros H. unfold isMe, bind. by rewrite (load_eq _ _ _ H). Qed.

(** On an object stamped by its constructor, a tag names the class. *)
Lemma stamp_dynamic_type o D :
  as_built L o →
  _typeinfo (base_of o) = typeTag L D →
  dynamic_type o = D.
Proof.
  intros [Hk Hs] Ht. rewrite Ht in Hs.
  destruct o as [b|n b m|X b v|D' b]; simpl in *.
  - by apply typeTag_nonnull in Hs.
  - by apply typeTag_inj in Hs.
  - by apply typeTag_inj in Hs.
  - done.
Qed.

(** A downcast to a class other than the base whose tag differs from the one
    stored returns null, whatever the object is. *)
Lemma dynamicCast_mismatch s this o T :
  s !! this = Some o → T ≠ TyLazyLocalBase →
  _typeinfo (base_of o) ≠ typeTag L (token_class T) →
  dynamicCast L T this s = Some (Null, s).
Proof.
  intros Hl HT Hne. unfold dynamicCast, token_class in *.
  rewrite (is_same_v_false _ HT).
  destruct (isDerivedFromLazyLocal T); unfold bind;
    rewrite (isMe_eq _ _ _ _ Hl), bool_decide_eq_false_2; done.
Qed.

(** A downcast to a typed derivation whose tag is the one stored returns the
    object, provided the object was stamped by its constructor. *)
Lemma dynamicCast_derived s this o T :
  s !! this = Some o → as_built L o →
  isDerivedFromLazyLocal T = true →
  _typeinfo (base_of o) = typeTag L T →
  dynamicCast L T this s = Some (ObjectAt this, s).
Proof.
  intros Hl Hs HT Ht. unfold dynamicCast.
  rewrite is_same_v_false, HT
    by (intros ->; by rewrite isDerivedFromLazyLocal_Base in HT).
  unfold bind. rewrite (isMe_eq _ _ _ _ Hl), bool_decide_eq_true_2 by done.
  unfold static_cast, bind. rewrite (load_eq _ _ _ Hl).
  by rewrite (stamp_dynamic_type _ _ Hs Ht), is_base_of_v_refl.
Qed.

(** A downcast to a plain type whose wrapper's tag is the one stored returns
    the payload member, provided the object was stamped by its constructor. *)
Lemma dynamicCast_wrapped s this o T :
  s !! this = Some o → as_built L o →
  T ≠ TyLazyLocalBase → isDerivedFromLazyLocal T = false →
  _typeinfo (base_of o) = typeTag L (TySimpleLazyLocal T) →
  dynamicCast L T this s = Some (LocalValueOf this, s).
Proof.
  intros Hl Hs Hb HT Ht. unfold dynamicCast.
  rewrite (is_same_v_false _ Hb), HT.
  unfold bind. rewrite (isMe_eq _ _ _ _ Hl), bool_decide_eq_true_2 by done.
  unfold static_cast, bind. rewrite (load_eq _ _ _ Hl).
  pose proof (stamp_dynamic_type _ _ Hs Ht) as Hd.
  rewrite Hd, is_base_of_v_refl. simpl. unfold bind.
  rewrite (load_eq _ _ _ Hl). by destruct o.
Qed.

Lemma dynamicCast_base s this :
  dynamicCast L TyLazyLocalBase this s = Some (ObjectAt this, s).
Proof. reflexivity. Qed.

End Calls.

(** ** Programs: what every call preserves *)

Section Programs.
Context {value : Type}.
Variable L : Layout.
Implicit Types (s : store value) (o : object value) (T D : ctype)
  (this p a : addr) (c : op (value := value)) (cs : list (op (value := value))).

Lemma empty_pure this s r s' : empty this s = Some (r, s') → s' = s.
Proof. unfold empty. intros H. open_call; done. Qed.

Lemma isMe_pure D p s r s' : isMe L D p s = Some (r, s') → s' = s.
Proof. unfold isMe. intros H. open_call; done. Qed.

Lemma static_cast_pure T this s r s' : static_cast T this s = Some (r, s') → s' = s.
Proof. unfold static_cast. intros H. open_call; done. Qed.

Lemma addressof_localValue_pure q s r s' :
  addressof_localValue q s = Some (r, s') → s' = s.
Proof. unfold addressof_localValue. intros H. open_call; done. Qed.

Lemma dynamicCast_pure T this s r s' :
  dynamicCast L T this s = Some (r, s') → s' = s.
Proof.
  unfold dynamicCast. intros H.
  destruct (is_same_v TyLazyLocalBase T); [by injection H|].
  destruct (isDerivedFromLazyLocal T); unfold bind in H.
  - destruct (isMe L T this s) as [[me s1]|] eqn:E1; [|done].
    apply isMe_pure in E1 as ->.
    destruct me; [by eapply static_cast_pure | by injection H].
  - destruct (isMe L (TySimpleLazyLocal T) this s) as [[me s1]|] eqn:E1; [|done].
    apply isMe_pure in E1 as ->.
    destruct me; [|by injection H].
    destruct (static_cast (TySimpleLazyLocal T) this s) as [[w s2]|] eqn:E2; [|done].
    apply static_cast_pure in E2 as ->.
    by eapply addressof_localValue_pure.
Qed.

(** What one call does to the store: a constructor adds the object it
    builds on free storage, the destructor removes one object, and the three
    queries leave the store as it is. *)
Lemma exec_inv c s u s' :
  exec L c s = Some (u, s') →
  (∃ this o, s !! this = None ∧ this ≠ nullptr ∧ s' = <[this := o]> s ∧
             as_built L o) ∨
  (∃ this, c = Delete this ∧ s' = delete this s) ∨
  s' = s.
Proof.
  destruct c as [this|n m this|T v this|this|D q|T this|this]; simpl; intros H.
  - apply place_inv in H as (? & ? & ->). left. by eexists _, _.
  - apply place_inv in H as (? & ? & ->). left. by eexists _, _.
  - apply place_inv in H as (? & ? & ->). left. by eexists _, _.
  - right; right. unfold bind in H.
    destruct (empty this s) as [[r s1]|] eqn:E; [|done].
    apply empty_pure in E as ->. by injection H.
  - right; right. unfold bind in H.
    destruct (isMe L D q s) as [[r s1]|] eqn:E; [|done].
    apply isMe_pure in E as ->. by injection H.
  - right; right. unfold bind in H.
    destruct (dynamicCast L T this s) as [[r s1]|] eqn:E; [|done].
    apply dynamicCast_pure in E as ->. by injection H.
  - right; left. unfold destroy in H.
    destruct (s !! this); [|done]. injection H as _ <-. eauto.
Qed.

Lemma exec_stamped c s u s' :
  stamped L s → exec L c s = Some (u, s') → stamped L s'.
Proof.
  intros Hs H. apply exec_inv in H as [(this & o & Hf & _ & -> & Ho) | [(this & _ & ->) | ->]].
  - intros a o' Ha. destruct (decide (this = a)) as [->|Hne].
    + rewrite lookup_insert_eq in Ha. by injection Ha as <-.
    + rewrite lookup_insert_ne in Ha by done. eauto.
  - intros a o' Ha. apply lookup_delete_Some in Ha as [_ Ha]. eauto.
  - done.
Qed.

(** No call changes an object that exists: the object stays as it is, or the
    call is its destructor. *)
Lemma exec_keeps c s u s' a o :
  exec L c s = Some (u, s') → s !! a = Some o →
  s' !! a = Some o ∨ (c = Delete a ∧ s' !! a = None).
Proof.
  intros H Ha. apply exec_inv in H as [(this & o' & Hf & _ & -> & _) | [(this & -> & ->) | ->]].
  - left. rewrite lookup_insert_ne; [done|]. intros ->. congruence.
  - destruct (decide (this = a)) as [->|Hne].
    + right. by rewrite lookup_delete_eq.
    + left. by rewrite lookup_delete_ne.
  - by left.
Qed.

Lemma run_stamped cs s u s' :
  stamped L s → run L cs s = Some (u, s') → stamped L s'.
Proof.
  revert s. induction cs as [|c cs IH]; simpl; intros s Hs H.
  - by injection H as _ <-.
  - unfold bind in H. destruct (exec L c s) as [[u1 s1]|] eqn:E; [|done].
    eapply IH; [|exact H]. by eapply exec_stamped.
Qed.

Lemma stamped_empty : stamped L (∅ : store value).
Proof. intros a o H. by rewrite lookup_empty in H. Qed.

Lemma reachable_stamped s : reachable L s → stamped L s.
Proof. intros [cs H]. eapply run_stamped; [apply stamped_empty | exact H]. Qed.

(** An object a program does not destroy is there, unchanged, at the end. *)
Lemma run_keeps cs s u s' a o :
  run L cs s = Some (u, s') → s !! a = Some o → a ∉ deleted cs →
  s' !! a = Some o.
Proof.
  revert s. induction cs as [|c cs IH]; simpl; intros s H Ha Hd.
  - by injection H as _ <-.
  - unfold bind in H. destruct (exec L c s) as [[u1 s1]|] eqn:E; [|done].
    destruct (exec_keeps _ _ _ _ _ _ E Ha) as [Hk | [-> _]].
    + eapply IH; [exact H | exact Hk |].
      destruct c; simpl in Hd; set_solver.
    + simpl in Hd. set_solver.
Qed.

End Programs.

(** ** The outcomes of a downcast *)

Section Outcomes.
Context {value : Type}.
Variable L : Layout.
Implicit Types (s : store value) (o : object value) (T D V : ctype)
  (this p a : addr) (v : value).

Lemma token_class_derived T : isDerivedFromLazyLocal (token_class T) = true.
Proof.
  unfold token_class. destruct (isDerivedFromLazyLocal T) eqn:E; [done|].
  apply isDerivedFromLazyLocal_Simple.
Qed.

Lemma derived_not_base D : isDerivedFromLazyLocal D = true → D ≠ TyLazyLocalBase.
Proof. intros H ->. by rewrite isDerivedFromLazyLocal_Base in H. Qed.

(** Among the classes of the hierarchy, a typed derivation is a base of
    itself only. *)
Lemma is_base_of_v_derivation D X :
  isDerivedFromLazyLocal D = true → is_base_of_v D X = bool_decide (X = D).
Proof.
  intros HD. unfold is_base_of_v. apply bool_decide_ext.
  rewrite elem_of_cons. split; [|intros ->; by left].
  intros [->|Hin]; [done|]. exfalso.
  apply list_elem_of_In in Hin.
  apply isDerivedFromLazyLocal_spec in HD as [[n Hn] | [Y HY]]; subst D;
    destruct X; simpl in Hin; intuition discriminate.
Qed.

(** On an object stamped by its constructor, the stored tag is [D]'s exactly
    when the object was created as a [D] (a bare [LazyLocalBase] carries no
    tag at all). *)
Lemma stamped_tag_iff o D :
  as_built L o →
  _typeinfo (base_of o) = typeTag L D ↔
  dynamic_type o = D ∧ D ≠ TyLazyLocalBase.
Proof.
  intros Hs. split.
  - intros Ht. split; [by eapply stamp_dynamic_type|].
    intros ->. pose proof (stamp_dynamic_type L _ _ Hs Ht) as Hd.
    destruct Hs as [_ Hs]. destruct o; simplify_eq/=.
    rewrite Ht in Hs. by apply typeTag_nonnull in Hs.
  - intros [<- Hb]. destruct Hs as [Hk ->]. by destruct o.
Qed.

(** What a downcast to a type other than the base does on an object whose
    tag is the one looked for: it returns the object, or its payload member,
    when the object is of the class the tag stands for, and faults when it
    is not. *)
Lemma dynamicCast_tag_match s this o T :
  s !! this = Some o → T ≠ TyLazyLocalBase →
  _typeinfo (base_of o) = typeTag L (token_class T) →
  dynamicCast L T this s =
    if decide (dynamic_type o = token_class T)
    then Some (if isDerivedFromLazyLocal T then ObjectAt this
               else LocalValueOf this, s)
    else None.
Proof.
  intros Hl HT Ht. unfold dynamicCast, token_class in *.
  rewrite (is_same_v_false _ HT).
  destruct (isDerivedFromLazyLocal T) eqn:HD; unfold bind;
    rewrite (isMe_eq _ _ _ _ _ Hl), bool_decide_eq_true_2 by done;
    unfold static_cast, bind; rewrite (load_eq _ _ _ Hl).
  - rewrite (is_base_of_v_derivation _ _ HD).
    destruct (decide (dynamic_type o = T)) as [He|Hne].
    + by rewrite bool_decide_eq_true_2.
    + by rewrite bool_decide_eq_false_2.
  - rewrite (is_base_of_v_derivation _ _ (isDerivedFromLazyLocal_Simple T)).
    destruct (decide (dynamic_type o = TySimpleLazyLocal T)) as [He|Hne].
    + rewrite bool_decide_eq_true_2 by done. simpl. unfold bind.
      rewrite (load_eq _ _ _ Hl). by destruct o.
    + by rewrite bool_decide_eq_false_2.
Qed.

(** A downcast to a type other than the base reads the object: on storage
    that holds none it faults. *)
Lemma dynamicCast_dangling s this T :
  s !! this = None → T ≠ TyLazyLocalBase → dynamicCast L T this s = None.
Proof.
  intros Hl HT. unfold dynamicCast. rewrite (is_same_v_false _ HT).
  destruct (isDerivedFromLazyLocal T); unfold bind, isMe, bind, load;
    by rewrite Hl.
Qed.

(** The outcome of a query on a handle depends on the object of that handle
    only. *)
Lemma dynamicCast_local T this s1 s2 :
  s1 !! this = s2 !! this →
  fst <$> dynamicCast L T this s1 = fst <$> dynamicCast L T this s2.
Proof.
  intros H. destruct (decide (T = TyLazyLocalBase)) as [->|HT]; [done|].
  destruct (s2 !! this) as [o|] eqn:E.
  - destruct (decide (_typeinfo (base_of o) = typeTag L (token_class T)))
      as [Ht|Ht].
    + rewrite (dynamicCast_tag_match s1 this o T), (dynamicCast_tag_match s2 this o T)
        by done.
      by destruct (decide _).
    + by rewrite (dynamicCast_mismatch L s1 this o T), (dynamicCast_mismatch L s2 this o T).
  - by rewrite !dynamicCast_dangling.
Qed.

Lemma empty_local this s1 s2 :
  s1 !! this = s2 !! this → fst <$> empty this s1 = fst <$> empty this s2.
Proof.
  intros H. unfold empty, bind, load, ret. rewrite H.
  by destruct (s2 !! this).
Qed.

Lemma ctype_no_wrapped_helper D : D ≠ TySimpleLazyLocal (TyLazyLocalBaseImpl D).
Proof. intros H. apply (f_equal ctype_size) in H. simpl in H. lia. Qed.

(** On an object stamped by its constructor a downcast to a type other than
    the base is decided by the class of the object. *)
Lemma dynamicCast_by_class s this o T :
  s !! this = Some o → as_built L o →
  T ≠ TyLazyLocalBase →
  dynamicCast L T this s =
    Some (if decide (dynamic_type o = token_class T)
          then if isDerivedFromLazyLocal T then ObjectAt this
               else LocalValueOf this
          else Null, s).
Proof.
  intros Hl Hs HT.
  pose proof (stamped_tag_iff o (token_class T) Hs) as Hiff.
  pose proof (derived_not_base _ (token_class_derived T)) as Hnb.
  destruct (decide (dynamic_type o = token_class T)) as [He|Hne].
  - rewrite (dynamicCast_tag_match s this o T Hl HT) by (by apply Hiff).
    by rewrite decide_True.
  - apply (dynamicCast_mismatch L s this o T Hl HT). intros Ht.
    by apply Hiff in Ht as [? _].
Qed.

End Outcomes.

(** ** Every public member: what the wider calls preserve *)

Section AllCalls.
Context {value : Type}.
Variable L : Layout.
Implicit Types (s : store value) (o : object value) (T D : ctype)
  (this p a : addr) (c : call (value := value))
  (cs : list (call (value := value))).


Lemma dynamic_type_with_base b o : dynamic_type (with_base b o) = dynamic_type o.
Proof. by destruct o. Qed.












End AllCalls.

(** ** The properties of the specification *)

Section Claims.
Context {value : Type}.
Variable L : Layout.
Implicit Types (s : store value) (o : object value) (T D V W A B : ctype)
  (this p a : addr) (v : value).

(** After a constructor has run at [this], the object it built is there. *)
Lemma lookup_placed o this s : <[this := o]> s !! this = Some o.
Proof. apply lookup_insert_eq. Qed.

(** A wrapper is retrieved by its payload type only when that type is a
    plain one: asked for a payload type that is itself a typed derivation,
    [dynamicCast] compares with that type's own tag (line 73), which is not
    the wrapper's. *)
Lemma wrapped_derivation_by_payload_type V v this s :
  isDerivedFromLazyLocal V = true →
  dynamicCast L V this (<[this := SimpleLazyLocal_ctor L V v]> s)
  = Some (Null, <[this := SimpleLazyLocal_ctor L V v]> s).
Proof.
  intros HV. eapply dynamicCast_mismatch; [apply lookup_placed | |].
  - intros ->. by rewrite isDerivedFromLazyLocal_Base in HV.
  - unfold token_class. rewrite HV. simpl. intros H%typeTag_inj.
    symmetry in H. revert H. clear. induction V; congruence.
Qed.

(** C3. For every handle, be it an empty one, an instance of a client's
    typed derivation or a generic value wrapper, at whatever address and
    whatever tag it carries, [dynamicCast<LazyLocalBase>()] succeeds: it
    returns a non-null pointer to the object at the handle's own address,
    and leaves the store as it was. *)
Theorem C3_downcast_to_base o this s :
  dynamicCast L TyLazyLocalBase this (<[this := o]> s)
  = Some (ObjectAt this, <[this := o]> s)
  ∧ ObjectAt this ≠ Null.
Proof. split; [apply dynamicCast_base | done]. Qed.

(** C4. A handle built by the [nullptr] constructor on free storage reports
    [empty() == true], and [dynamicCast<T>()] on it returns null for every
    [T] other than [LazyLocalBase], typed derivation or plain payload type
    alike. *)
Theorem C4_empty_handle this s :
  this ≠ nullptr → s !! this = None →
  ∃ s', new_LazyLocalBase this s = Some ((), s')
    ∧ empty this s' = Some (true, s')
    ∧ ∀ T, T ≠ TyLazyLocalBase → dynamicCast L T this s' = Some (Null, s').
Proof.
  intros Hn Hf. eexists. split; [by apply place_free|]. split.
  - by rewrite (empty_eq _ _ _ (lookup_placed _ _ _)).
  - intros T HT. eapply dynamicCast_mismatch; [apply lookup_placed | done |].
    simpl. intros H. symmetry in H. by apply typeTag_nonnull in H.
Qed.

(** C1. Round trip through the generic value wrapper.  For every plain
    payload type [V] (the third case of the downcast: neither the base type
    nor a typed derivation) and every value [v]: the constructor of
    [SimpleLazyLocal<V>], run with [v] on free storage, succeeds; on the
    handle it leaves, [dynamicCast<V>()] returns a non-null pointer, and
    reading through that pointer gives [v]; and [dynamicCast<W>()] returns
    null for every [W] other than the base type whose tag is not the one
    [V] is looked up with. *)
Theorem C1_wrap_roundtrip V v this s :
  V ≠ TyLazyLocalBase → isDerivedFromLazyLocal V = false →
  this ≠ nullptr → s !! this = None →
  ∃ s' r, new_SimpleLazyLocal L V v this s = Some ((), s')
    ∧ dynamicCast L V this s' = Some (r, s')
    ∧ r ≠ Null
    ∧ deref s' r = Some v
    ∧ ∀ W, W ≠ TyLazyLocalBase →
           typeTag L (token_class W) ≠ typeTag L (token_class V) →
           dynamicCast L W this s' = Some (Null, s').
Proof.
  intros Hb HV Hn Hf. exists (<[this := SimpleLazyLocal_ctor L V v]> s), (LocalValueOf this).
  split; [by apply place_free|]. split; [|split; [done|split]].
  - by eapply dynamicCast_wrapped; [apply lookup_placed|..].
  - simpl. by rewrite lookup_placed.
  - intros W HW Hne. eapply dynamicCast_mismatch; [apply lookup_placed | done |].
    simpl. unfold token_class in Hne at 2. rewrite HV in Hne. congruence.
Qed.

(** C10. A value wrapped in a [SimpleLazyLocal<V>], [V] a plain payload
    type, is reached through two distinct target types on the same handle.
    [SimpleLazyLocal<V>] satisfies the concept while [V] does not, so
    [dynamicCast<SimpleLazyLocal<V>>()] takes the typed-derivation branch
    and returns a non-null pointer to the wrapper itself, [dynamicCast<V>()]
    returns the address of the member [localValue] of that same wrapper,
    and the value read there is the wrapped one. *)
Theorem C10_two_views_of_a_wrapper V v this s :
  V ≠ TyLazyLocalBase → isDerivedFromLazyLocal V = false →
  this ≠ nullptr → s !! this = None →
  ∃ s' w r, new_SimpleLazyLocal L V v this s = Some ((), s')
    ∧ V ≠ TySimpleLazyLocal V
    ∧ is_same_v TyLazyLocalBase (TySimpleLazyLocal V) = false
    ∧ isDerivedFromLazyLocal (TySimpleLazyLocal V) = true
    ∧ dynamicCast L (TySimpleLazyLocal V) this s' = Some (w, s')
    ∧ w = ObjectAt this
    ∧ w ≠ Null
    ∧ dynamicCast L V this s' = Some (r, s')
    ∧ r = member_localValue w
    ∧ r ≠ Null
    ∧ deref s' r = Some v.
Proof.
  intros Hb HV Hn Hf.
  exists (<[this := SimpleLazyLocal_ctor L V v]> s), (ObjectAt this), (LocalValueOf this).
  split; [by apply place_free|].
  split; [intros H; rewrite H, isDerivedFromLazyLocal_Simple in HV; done|].
  split; [done|]. split; [apply isDerivedFromLazyLocal_Simple|].
  split; [|split; [done|split; [done|split; [|split; [done|split; [done|]]]]]].
  - eapply dynamicCast_derived; [apply lookup_placed | done | | done].
    apply isDerivedFromLazyLocal_Simple.
  - by eapply dynamicCast_wrapped; [apply lookup_placed|..].
  - simpl. by rewrite lookup_placed.
Qed.

(** The typed derivations are the classes that have instances, and the
    constructor of each stamps the base subobject with the class's tag. *)
Lemma instance_of_derived D v :
  isDerivedFromLazyLocal D = true →
  ∃ o, instance_of L D v = Some o
    ∧ dynamic_type o = D
    ∧ base_of o = LazyLocalBase_ctor (typeTag L D)
    ∧ as_built L o.
Proof.
  intros [[n Hn] | [X HX]]%isDerivedFromLazyLocal_spec; subst D;
    eexists; (split; [reflexivity|]); done.
Qed.

Lemma instance_of_inv D v o :
  instance_of L D v = Some o →
  isDerivedFromLazyLocal D = true
  ∧ _typeinfo (base_of o) = typeTag L D
  ∧ as_built L o.
Proof.
  destruct D; simpl; intros [= <-]; (split; [|done]);
    auto using isDerivedFromLazyLocal_User, isDerivedFromLazyLocal_Simple.
Qed.

(** C2. For every two distinct typed derivations [A] and [B] (each derived
    from [LazyLocalBaseImpl] of itself): [A] has instances; on an instance
    of [A], built by its constructor on free storage, [dynamicCast<A>()]
    returns a non-null pointer to that instance and [dynamicCast<B>()]
    returns null; and the tags of [A] and [B] are at different addresses. *)
Theorem C2_distinct_derivations A B v this s :
  isDerivedFromLazyLocal A = true → isDerivedFromLazyLocal B = true →
  A ≠ B → this ≠ nullptr → s !! this = None →
  ∃ o s', instance_of L A v = Some o
    ∧ place o this s = Some ((), s')
    ∧ dynamicCast L A this s' = Some (ObjectAt this, s')
    ∧ ObjectAt this ≠ Null
    ∧ dynamicCast L B this s' = Some (Null, s')
    ∧ typeTag L A ≠ typeTag L B.
Proof.
  intros HA HB Hne Hn Hf.
  destruct (instance_of_derived A v HA) as (o & Ho & _ & Hb & Hs).
  exists o, (<[this := o]> s). split; [done|]. split; [by apply place_free|].
  assert (typeTag L A ≠ typeTag L B) as Htag by (by intros H%typeTag_inj).
  split; [|split; [done|split; [|done]]].
  - eapply dynamicCast_derived; [apply lookup_placed | done | done |].
    by rewrite Hb.
  - eapply dynamicCast_mismatch; [apply lookup_placed | |].
    + intros ->. by rewrite isDerivedFromLazyLocal_Base in HB.
    + unfold token_class. rewrite HB, Hb. done.
Qed.

(** On an object stamped by its constructor, a downcast to a type other
    than the base returns, leaves the store alone, and its result is null
    exactly when the tags differ. *)
Lemma dynamicCast_on_stamped s this o T :
  s !! this = Some o → as_built L o →
  T ≠ TyLazyLocalBase →
  ∃ r, dynamicCast L T this s = Some (r, s)
    ∧ (r = Null ↔ _typeinfo (base_of o) ≠ typeTag L (token_class T)).
Proof.
  intros Hl Hs HT.
  destruct (decide (_typeinfo (base_of o) = typeTag L (token_class T))) as [He|Hne].
  - unfold token_class in He.
    destruct (isDerivedFromLazyLocal T) eqn:HD.
    + exists (ObjectAt this). split; [by eapply dynamicCast_derived|].
      unfold token_class. rewrite HD. done.
    + exists (LocalValueOf this). split; [by eapply dynamicCast_wrapped|].
      unfold token_class. rewrite HD. done.
  - exists Null. split; [by eapply dynamicCast_mismatch|]. done.
Qed.

(** C5 (amended).  A mismatch of types shows as a null result, never as an
    exception.  For every handle and every target type [T] other than the
    base: whenever [dynamicCast<T>()] returns, it leaves the store as it
    was and its result is null exactly when the tag stored in the handle
    differs from the address of the tag [T] is looked up with ([T]'s own if
    [T] is a typed derivation, [SimpleLazyLocal<T>]'s otherwise).  The call
    is not defined on every handle: it has undefined behaviour exactly when
    the stored tag is the one looked for and the object is not of the class
    that tag belongs to, since the [static_cast] that follows [isMe] is not
    checked.  It is defined on every handle that is as its constructor left
    it: an empty [LazyLocalBase], an instance of a typed derivation, a
    [SimpleLazyLocal]. *)
Theorem C5_null_iff_tag_mismatch s this o T :
  s !! this = Some o → T ≠ TyLazyLocalBase →
  (∀ r s', dynamicCast L T this s = Some (r, s') →
     s' = s
     ∧ (r = Null ↔ _typeinfo (base_of o) ≠ typeTag L (token_class T)))
  ∧ (dynamicCast L T this s = None ↔
       _typeinfo (base_of o) = typeTag L (token_class T)
       ∧ is_base_of_v (token_class T) (dynamic_type o) = false)
  ∧ (as_built L o → ∃ r, dynamicCast L T this s = Some (r, s)).
Proof.
  intros Hl HT.
  destruct (decide (_typeinfo (base_of o) = typeTag L (token_class T))) as [Ht|Ht].
  - rewrite (dynamicCast_tag_match L s this o T Hl HT Ht).
    rewrite (is_base_of_v_derivation _ _ (token_class_derived T)).
    destruct (decide (dynamic_type o = token_class T)) as [Hd|Hd].
    + rewrite bool_decide_eq_true_2 by done. split; [|split].
      * intros r s' [= <- <-]. split; [done|].
        by destruct (isDerivedFromLazyLocal T).
      * split; [done|]. by intros [_ ?].
      * eauto.
    + rewrite bool_decide_eq_false_2 by done. split; [done|split; [done|]].
      intros Hb. exfalso. apply Hd.
      by apply (stamped_tag_iff L o (token_class T) Hb).
  - rewrite (dynamicCast_mismatch L s this o T Hl HT Ht). split; [|split].
    + by intros r s' [= <- <-].
    + split; [done|]. by intros [? _].
    + eauto.
Qed.


(** C7. The tag belongs to the type, not to the instance.  Two instances of
    one typed derivation [D], built independently by its constructor at two
    addresses, both pass [D]'s [isMe] and both carry the one address
    [&typeTag] of [D]; and this is still so after any further calls of the
    program that do not destroy them. *)
Theorem C7_tag_is_per_type D v1 v2 o1 o2 a1 a2 s u1 s1 u2 s2 cs u s' :
  instance_of L D v1 = Some o1 → instance_of L D v2 = Some o2 →
  place o1 a1 s = Some (u1, s1) → place o2 a2 s1 = Some (u2, s2) →
  run L cs s2 = Some (u, s') → a1 ∉ deleted cs → a2 ∉ deleted cs →
  a1 ≠ a2
  ∧ isMe L D a1 s' = Some (true, s')
  ∧ isMe L D a2 s' = Some (true, s')
  ∧ s' !! a1 = Some o1 ∧ s' !! a2 = Some o2
  ∧ _typeinfo (base_of o1) = typeTag L D
  ∧ _typeinfo (base_of o2) = _typeinfo (base_of o1).
Proof.
  intros Ho1 Ho2 Hp1 Hp2 Hrun Hd1 Hd2.
  apply instance_of_inv in Ho1 as (_ & Ht1 & _).
  apply instance_of_inv in Ho2 as (_ & Ht2 & _).
  apply place_inv in Hp1 as (_ & Hf1 & ->).
  apply place_inv in Hp2 as (_ & Hf2 & ->).
  assert (a1 ≠ a2) as Hne by (intros ->; by rewrite lookup_insert_eq in Hf2).
  assert (s' !! a1 = Some o1) as Hl1.
  { eapply run_keeps; [exact Hrun | | done].
    rewrite lookup_insert_ne by done. apply lookup_insert_eq. }
  assert (s' !! a2 = Some o2) as Hl2.
  { eapply run_keeps; [exact Hrun | | done]. apply lookup_insert_eq. }
  split; [done|]. split; [|split; [|split; [done|split; [done|split]]]].
  - by rewrite (isMe_eq L _ _ _ _ Hl1), bool_decide_eq_true_2.
  - by rewrite (isMe_eq L _ _ _ _ Hl2), bool_decide_eq_true_2.
  - done.
  - congruence.
Qed.

Lemma ntimes_pure {R : Type} (c : M value R) s (r : R) n :
  c s = Some (r, s) → ntimes n c s = Some (replicate n r, s).
Proof.
  intros Hc. induction n as [|n IH]; simpl; [done|].
  unfold bind. by rewrite Hc, IH.
Qed.

(** C8. [dynamicCast] and [empty] have no side effects.  On every handle of
    every store a program can build, and for every target type [T], both
    calls return and leave the store, with the handle's stored tag and every
    other object, exactly as it was; nothing is allocated; and called any
    number of times in a row they return the same result each time. *)
Theorem C8_queries_have_no_effect s this o T :
  reachable L s → s !! this = Some o →
  ∃ r b, dynamicCast L T this s = Some (r, s)
    ∧ empty this s = Some (b, s)
    ∧ ∀ n, ntimes n (dynamicCast L T this) s = Some (replicate n r, s)
         ∧ ntimes n (empty this) s = Some (replicate n b, s).
Proof.
  intros Hr Hl.
  assert (∃ r, dynamicCast L T this s = Some (r, s)) as [r Hc].
  { destruct (decide (T = TyLazyLocalBase)) as [->|HT].
    - eexists. apply dynamicCast_base.
    - destruct (dynamicCast_on_stamped s this o T Hl) as (r & Hc & _);
        [by apply (reachable_stamped L s Hr this) | done | by exists r]. }
  exists r, (bool_decide (_typeinfo (base_of o) = nullptr)).
  pose proof (empty_eq _ _ _ Hl) as He.
  split; [done|]. split; [done|].
  intros n. split; by apply ntimes_pure.
Qed.

End Claims.

(** ** Further properties of the header *)

Section Coverage.
Context {value : Type}.
Variable L : Layout.
Implicit Types (s : store value) (o : object value) (T D V : ctype)
  (this p a : addr) (v : value).

(** X1. The concept [isDerivedFromLazyLocal] accepts the client classes
    derived from [LazyLocalBaseImpl] of themselves and every
    [SimpleLazyLocal<X>], and nothing else: not [LazyLocalBase], not a
    plain type, and not the helper [LazyLocalBaseImpl<D>] itself, whatever
    [D] is. *)
Theorem X1_concept_accepts T :
  isDerivedFromLazyLocal T =
  match T with
  | TyUser _ | TySimpleLazyLocal _ => true
  | TyLazyLocalBase | TyLazyLocalBaseImpl _ | TyPlain _ => false
  end.
Proof.
  destruct T.
  - apply isDerivedFromLazyLocal_Base.
  - apply isDerivedFromLazyLocal_Impl.
  - apply isDerivedFromLazyLocal_Simple.
  - apply isDerivedFromLazyLocal_User.
  - apply isDerivedFromLazyLocal_Plain.
Qed.

(** X2. A [SimpleLazyLocal<V>] whose payload type [V] is itself the base
    type or a typed derivation does not give its payload to
    [dynamicCast<V>()]: for the base type the call returns the wrapper as a
    base, for a typed derivation it returns null.  The payload is still
    reached through the wrapper type: [dynamicCast<SimpleLazyLocal<V>>()]
    returns the wrapper, whose member [localValue] holds the value. *)
Theorem X2_wrapper_of_participating_type V v this s :
  V = TyLazyLocalBase ∨ isDerivedFromLazyLocal V = true →
  this ≠ nullptr → s !! this = None →
  ∃ s' r, new_SimpleLazyLocal L V v this s = Some ((), s')
    ∧ dynamicCast L V this s' = Some (r, s')
    ∧ r = (if is_same_v TyLazyLocalBase V then ObjectAt this else Null)
    ∧ deref s' r = None
    ∧ dynamicCast L (TySimpleLazyLocal V) this s' = Some (ObjectAt this, s')
    ∧ deref s' (member_localValue (ObjectAt this)) = Some v.
Proof.
  intros HV Hn Hf.
  exists (<[this := SimpleLazyLocal_ctor L V v]> s),
    (if is_same_v TyLazyLocalBase V then ObjectAt this else Null).
  split; [by apply place_free|].
  assert (<[this := SimpleLazyLocal_ctor L V v]> s !! this
          = Some (SimpleLazyLocal_ctor L V v)) as Hl by apply lookup_insert_eq.
  split; [|split; [done|split; [by destruct (is_same_v _ _)|split]]].
  - destruct HV as [->|HV]; [done|].
    rewrite (is_same_v_false _ (derived_not_base _ HV)).
    rewrite (dynamicCast_by_class L _ _ _ _ Hl) by (done || by apply derived_not_base).
    rewrite decide_False; [done|].
    unfold token_class. rewrite HV. simpl. intros H.
    apply (f_equal ctype_size) in H. simpl in H. lia.
  - rewrite (dynamicCast_by_class L _ _ _ _ Hl) by done.
    unfold token_class. rewrite isDerivedFromLazyLocal_Simple.
    by rewrite decide_True.
  - simpl. by rewrite Hl.
Qed.

(** X3. On an empty handle, an instance of a client class derived from
    [LazyLocalBaseImpl] of itself or a [SimpleLazyLocal], as its
    constructor leaves it, [LazyLocalBaseImpl<D>::isMe(p)] returns true
    exactly when [D] is a typed derivation and the object is a [D]; no
    such empty handle passes it, for any [D]. *)
Theorem X3_isMe_exact s p o D :
  s !! p = Some o → as_built L o →
  ∃ b, isMe L D p s = Some (b, s)
    ∧ (b = true ↔
       isDerivedFromLazyLocal D = true
       ∧ is_base_of_v D (dynamic_type o) = true).
Proof.
  intros Hl Hb. eexists. split; [by apply isMe_eq|].
  rewrite bool_decide_eq_true, (stamped_tag_iff L o D Hb). split.
  - intros [Hd Hn].
    assert (isDerivedFromLazyLocal D = true) as HD.
    { subst D. destruct Hb as [Hk _]. destruct o; simpl in *;
        auto using isDerivedFromLazyLocal_User, isDerivedFromLazyLocal_Simple;
        done. }
    split; [done|]. rewrite Hd. apply is_base_of_v_refl.
  - intros [HD Hbase]. rewrite (is_base_of_v_derivation _ _ HD) in Hbase.
    apply bool_decide_eq_true in Hbase. split; [done|].
    by apply derived_not_base.
Qed.

(** X4. The downcast agrees with the class of the object.  On an empty
    handle, an instance of a client class derived from [LazyLocalBaseImpl]
    of itself or a [SimpleLazyLocal], as its constructor leaves it, and
    for every target [T] other than the base, [dynamicCast<T>()] returns,
    and its result is non-null exactly when the object is a [T] (for [T] a
    typed derivation) or a [SimpleLazyLocal<T>] (for any other [T]); in
    the first case the result is the object, in the second it is the
    member [localValue] of that wrapper and reads as its payload. *)
Theorem X4_downcast_agrees_with_class s this o T :
  s !! this = Some o → as_built L o → T ≠ TyLazyLocalBase →
  ∃ r, dynamicCast L T this s = Some (r, s)
    ∧ (r ≠ Null ↔ is_base_of_v (token_class T) (dynamic_type o) = true)
    ∧ (r ≠ Null → isDerivedFromLazyLocal T = true → r = ObjectAt this)
    ∧ (r ≠ Null → isDerivedFromLazyLocal T = false →
         r = LocalValueOf this
         ∧ ∃ b v, o = ObjSimpleLazyLocal T b v ∧ deref s r = Some v).
Proof.
  intros Hl Hs HT.
  eexists. split; [by apply dynamicCast_by_class|].
  rewrite (is_base_of_v_derivation _ _ (token_class_derived T)).
  rewrite bool_decide_eq_true.
  destruct (decide (dynamic_type o = token_class T)) as [He|Hne].
  - unfold token_class in He.
    destruct (isDerivedFromLazyLocal T) eqn:HD.
    + repeat split; try done. unfold token_class. by rewrite HD.
    + split; [split; [intros _; unfold token_class; by rewrite HD|done]|].
      split; [done|]. intros _ _. split; [done|].
      destruct o as [b|n b m|X b w|D b]; simplify_eq/=.
      exists b, w. by rewrite Hl.
  - repeat split; done.
Qed.

(** X5. What [empty()] says right after construction.  On free storage,
    the [nullptr] constructor leaves a handle on which [empty()] is true;
    the constructors of a client's typed derivation, of [SimpleLazyLocal]
    and of [LazyLocalBaseImpl] leave one on which it is false; the copy
    constructor of [LazyLocalBase] leaves one on which it answers what it
    answers on the source. *)
Theorem X5_empty_after_construction this s :
  this ≠ nullptr → s !! this = None →
  (∃ s', new_LazyLocalBase this s = Some ((), s')
         ∧ empty this s' = Some (true, s'))
  ∧ (∀ n m, ∃ s', new_User L n m this s = Some ((), s')
                  ∧ empty this s' = Some (false, s'))
  ∧ (∀ T v, ∃ s', new_SimpleLazyLocal L T v this s = Some ((), s')
                  ∧ empty this s' = Some (false, s'))
  ∧ (∀ D, ∃ s', new_LazyLocalBaseImpl L D this s = Some ((), s')
                ∧ empty this s' = Some (false, s'))
  ∧ (∀ src o, s !! src = Some o →
       ∃ s', copy_LazyLocalBase src this s = Some ((), s')
             ∧ fst <$> empty this s' = fst <$> empty src s).
Proof.
  intros Hn Hf.
  assert (∀ o : object value, ∃ s', place o this s = Some ((), s')
            ∧ empty this s'
              = Some (bool_decide (_typeinfo (base_of o) = nullptr), s')) as Hp.
  { intros o. eexists. split; [by apply place_free|].
    apply empty_eq, lookup_insert_eq. }
  assert (∀ D, bool_decide (typeTag L D = nullptr) = false) as Hfalse.
  { intros D. apply bool_decide_eq_false, typeTag_nonnull. }
  split; [|split; [|split; [|split]]].
  - destruct (Hp (ObjLazyLocalBase LazyLocalBase_ctor_nullptr)) as (s' & H1 & H2).
    by exists s'.
  - intros n m. destruct (Hp (User_ctor L n m)) as (s' & H1 & H2).
    exists s'. split; [done|]. rewrite H2. simpl. by rewrite Hfalse.
  - intros T v. destruct (Hp (SimpleLazyLocal_ctor L T v)) as (s' & H1 & H2).
    exists s'. split; [done|]. rewrite H2. simpl. by rewrite Hfalse.
  - intros D.
    destruct (Hp (ObjLazyLocalBaseImpl D (LazyLocalBaseImpl_ctor L D)))
      as (s' & H1 & H2).
    exists s'. split; [done|]. rewrite H2. simpl. by rewrite Hfalse.
  - intros src o Hsrc.
    destruct (Hp (ObjLazyLocalBase {| _typeinfo := _typeinfo (base_of o) |}))
      as (s' & H1 & H2).
    exists s'. split.
    + unfold copy_LazyLocalBase, bind. by rewrite (load_eq _ _ _ Hsrc).
    + by rewrite H2, (empty_eq _ _ _ Hsrc).
Qed.

(** X6. The answers of a handle do not change while it lives.  Whatever a
    program constructs, asks or destroys elsewhere, as long as it does not
    destroy the handle at [a], the object at [a] is the same afterwards and
    [dynamicCast<T>()], [empty()] and [isMe] give on it the results they
    gave before, for every [T] and [D]. *)
Theorem X6_answers_are_stable cs s u s' a o T D :
  run L cs s = Some (u, s') → s !! a = Some o → a ∉ deleted cs →
  s' !! a = Some o
  ∧ fst <$> dynamicCast L T a s' = fst <$> dynamicCast L T a s
  ∧ fst <$> empty a s' = fst <$> empty a s
  ∧ fst <$> isMe L D a s' = fst <$> isMe L D a s.
Proof.
  intros Hrun Hl Hd.
  pose proof (run_keeps L _ _ _ _ _ _ Hrun Hl Hd) as Hl'.
  split; [done|]. split; [|split].
  - apply dynamicCast_local. congruence.
  - apply empty_local. congruence.
  - by rewrite (isMe_eq L _ _ _ _ Hl), (isMe_eq L _ _ _ _ Hl').
Qed.

(** X7. A handle answers to one class only.  If on a handle of a store a
    program can build the downcasts to two targets other than the base are
    both non-null, the targets are the same type, or one is the
    [SimpleLazyLocal] wrapper of the other. *)
Theorem X7_one_class_per_handle s this o T1 T2 r1 r2 :
  reachable L s → s !! this = Some o →
  T1 ≠ TyLazyLocalBase → T2 ≠ TyLazyLocalBase →
  dynamicCast L T1 this s = Some (r1, s) → r1 ≠ Null →
  dynamicCast L T2 this s = Some (r2, s) → r2 ≠ Null →
  T1 = T2 ∨ T1 = TySimpleLazyLocal T2 ∨ T2 = TySimpleLazyLocal T1.
Proof.
  intros Hr Hl HT1 HT2 H1 Hn1 H2 Hn2.
  pose proof (reachable_stamped L s Hr _ _ Hl) as Hs.
  rewrite (dynamicCast_by_class L _ _ _ _ Hl Hs HT1) in H1.
  rewrite (dynamicCast_by_class L _ _ _ _ Hl Hs HT2) in H2.
  destruct (decide (dynamic_type o = token_class T1)) as [E1|]; [|congruence].
  destruct (decide (dynamic_type o = token_class T2)) as [E2|]; [|congruence].
  rewrite E1 in E2. unfold token_class in E2.
  destruct (isDerivedFromLazyLocal T1), (isDerivedFromLazyLocal T2);
    simplify_eq; auto.
Qed.

(** X8. The downcast does not follow inheritance.  An instance of a typed
    derivation [D] is also a [LazyLocalBaseImpl<D>], its direct base class,
    yet [dynamicCast<LazyLocalBaseImpl<D>>()] on it returns null: that
    target is looked up as the payload of a wrapper. *)
Theorem X8_no_cast_to_intermediate_base D v this s :
  isDerivedFromLazyLocal D = true → this ≠ nullptr → s !! this = None →
  ∃ o s', instance_of L D v = Some o
    ∧ place o this s = Some ((), s')
    ∧ is_base_of_v (TyLazyLocalBaseImpl D) (dynamic_type o) = true
    ∧ dynamicCast L (TyLazyLocalBaseImpl D) this s' = Some (Null, s').
Proof.
  intros HD Hn Hf.
  destruct (instance_of_derived L D v HD) as (o & Ho & Hdt & _ & Hs).
  exists o, (<[this := o]> s). split; [done|]. split; [by apply place_free|].
  split; [by rewrite Hdt|].
  rewrite (dynamicCast_by_class L _ _ o) by (done || apply lookup_insert_eq).
  rewrite decide_False; [done|].
  unfold token_class. rewrite isDerivedFromLazyLocal_Impl, Hdt.
  apply ctype_no_wrapped_helper.
Qed.

(** X9. What makes a downcast go wrong.  For a target [T] other than the
    base, [dynamicCast<T>()] has undefined behaviour in exactly two cases:
    there is no object at [this], or the object carries the tag that [T] is
    looked up with without being of the class that tag stands for, so that
    the [static_cast] after [isMe] is applied to an object of another
    class.  In every other case it returns. *)
Theorem X9_fault_iff_forged_tag s this T :
  T ≠ TyLazyLocalBase →
  dynamicCast L T this s = None ↔
  s !! this = None
  ∨ ∃ o, s !! this = Some o
       ∧ _typeinfo (base_of o) = typeTag L (token_class T)
       ∧ dynamic_type o ≠ token_class T.
Proof.
  intros HT. split.
  - intros H. destruct (s !! this) as [o|] eqn:Hl; [right|by left].
    exists o. split; [done|].
    destruct (decide (_typeinfo (base_of o) = typeTag L (token_class T)))
      as [Ht|Ht].
    + split; [done|]. rewrite (dynamicCast_tag_match L s this o T Hl HT Ht) in H.
      by destruct (decide (dynamic_type o = token_class T)).
    + by rewrite (dynamicCast_mismatch L s this o T Hl HT Ht) in H.
  - intros [Hl | (o & Hl & Ht & Hne)]; [by apply dynamicCast_dangling|].
    rewrite (dynamicCast_tag_match L s this o T Hl HT Ht).
    by rewrite decide_False.
Qed.

(** X10. Emptiness and the typed downcasts.  On every handle of every
    store, if [empty()] returns true then [dynamicCast<T>()] returns null,
    without fault, for every [T] other than the base.  The converse holds
    on an empty handle, an instance of a client class derived from
    [LazyLocalBaseImpl] of itself or a [SimpleLazyLocal], as its
    constructor leaves it: if every such downcast is null, the handle is
    empty. *)
Theorem X10_empty_iff_no_typed_downcast s this o :
  s !! this = Some o →
  (empty this s = Some (true, s) →
   ∀ T, T ≠ TyLazyLocalBase → dynamicCast L T this s = Some (Null, s))
  ∧ (as_built L o →
     (∀ T, T ≠ TyLazyLocalBase → dynamicCast L T this s = Some (Null, s)) →
     empty this s = Some (true, s)).
Proof.
  intros Hl. rewrite (empty_eq _ _ _ Hl). split.
  - intros [= He%bool_decide_eq_true] T HT.
    apply (dynamicCast_mismatch L s this o T Hl HT). rewrite He.
    intros H. symmetry in H. by apply typeTag_nonnull in H.
  - intros Hs Hall. do 2 f_equal. apply bool_decide_eq_true.
    destruct Hs as [Hk Hs].
    destruct o as [b|n b m|X b w|D b]; simpl in *; [done| | |done].
    + specialize (Hall (TyUser n)).
      rewrite (dynamicCast_by_class L _ _ _ _ Hl) in Hall by done.
      unfold token_class in Hall. rewrite isDerivedFromLazyLocal_User in Hall.
      simpl in Hall. rewrite decide_True in Hall by done.
      by specialize (Hall ltac:(done)).
    + specialize (Hall (TySimpleLazyLocal X)).
      rewrite (dynamicCast_by_class L _ _ _ _ Hl) in Hall by done.
      unfold token_class in Hall. rewrite isDerivedFromLazyLocal_Simple in Hall.
      simpl in Hall. rewrite decide_True in Hall by done.
      by specialize (Hall ltac:(done)).
Qed.

End Coverage.

(** ** The properties on a concrete program *)

Lemma wrapped_42_reachable : reachable numbered_layout wrapped_42.
Proof. exists [NewSimpleLazyLocal int 42%Z 8%N]. reflexivity. Qed.

(** Wrap the integer 42: the downcast to [int] points to 42, the downcast to
    [double] is null, the downcast to the base is the handle. *)
Example scenario_wrap_42 :
  dynamicCast numbered_layout int 8%N wrapped_42
  = Some (LocalValueOf 8%N, wrapped_42)
  ∧ deref wrapped_42 (LocalValueOf 8%N) = Some 42%Z
  ∧ dynamicCast numbered_layout double 8%N wrapped_42 = Some (Null, wrapped_42)
  ∧ dynamicCast numbered_layout TyLazyLocalBase 8%N wrapped_42
    = Some (ObjectAt 8%N, wrapped_42).
Proof. repeat split; reflexivity. Qed.

(** An empty handle: [empty()] is true, the downcasts to [int] and to a
    typed derivation are null, the downcast to the base is the handle. *)
Example scenario_empty_handle :
  let s : store Z := <[8%N := ObjLazyLocalBase LazyLocalBase_ctor_nullptr]> ∅ in
  new_LazyLocalBase 8%N ∅ = Some ((), s)
  ∧ empty 8%N s = Some (true, s)
  ∧ dynamicCast numbered_layout int 8%N s = Some (Null, s)
  ∧ dynamicCast numbered_layout Counter 8%N s = Some (Null, s)
  ∧ dynamicCast numbered_layout TyLazyLocalBase 8%N s = Some (ObjectAt 8%N, s).
Proof. repeat split; reflexivity. Qed.

Lemma C1_wrap_roundtrip_witness :
  (int ≠ TyLazyLocalBase ∧ isDerivedFromLazyLocal int = false
   ∧ 8%N ≠ nullptr ∧ (∅ : store Z) !! 8%N = None)
  ∧ ∃ s' r, new_SimpleLazyLocal numbered_layout int 42%Z 8%N ∅ = Some ((), s')
      ∧ dynamicCast numbered_layout int 8%N s' = Some (r, s')
      ∧ r ≠ Null
      ∧ deref s' r = Some 42%Z
      ∧ ∀ W, W ≠ TyLazyLocalBase →
             typeTag numbered_layout (token_class W)
             ≠ typeTag numbered_layout (token_class int) →
             dynamicCast numbered_layout W 8%N s' = Some (Null, s').
Proof.
  split; [repeat split; done|].
  apply (C1_wrap_roundtrip numbered_layout int 42%Z 8%N ∅); done.
Defined.

Lemma C2_distinct_derivations_witness :
  (isDerivedFromLazyLocal Counter = true ∧ isDerivedFromLazyLocal Logger = true
   ∧ Counter ≠ Logger ∧ 8%N ≠ nullptr ∧ (∅ : store Z) !! 8%N = None)
  ∧ ∃ o s', instance_of numbered_layout Counter 1%Z = Some o
      ∧ place o 8%N ∅ = Some ((), s')
      ∧ dynamicCast numbered_layout Counter 8%N s' = Some (ObjectAt 8%N, s')
      ∧ ObjectAt 8%N ≠ Null
      ∧ dynamicCast numbered_layout Logger 8%N s' = Some (Null, s')
      ∧ typeTag numbered_layout Counter ≠ typeTag numbered_layout Logger.
Proof.
  split; [repeat split; done|].
  apply (C2_distinct_derivations numbered_layout Counter Logger 1%Z 8%N ∅); done.
Defined.

Lemma C4_empty_handle_witness :
  (8%N ≠ nullptr ∧ (∅ : store Z) !! 8%N = None)
  ∧ ∃ s' : store Z, new_LazyLocalBase 8%N ∅ = Some ((), s')
      ∧ empty 8%N s' = Some (true, s')
      ∧ ∀ T, T ≠ TyLazyLocalBase →
             dynamicCast numbered_layout T 8%N s' = Some (Null, s').
Proof.
  split; [split; done|].
  apply (C4_empty_handle numbered_layout 8%N ∅); done.
Defined.

Lemma C5_null_iff_tag_mismatch_witness :
  (wrapped_42 !! 8%N = Some (SimpleLazyLocal_ctor numbered_layout int 42%Z)
   ∧ double ≠ TyLazyLocalBase)
  ∧ (∀ r s', dynamicCast numbered_layout double 8%N wrapped_42 = Some (r, s') →
       s' = wrapped_42
       ∧ (r = Null ↔
          _typeinfo (base_of (SimpleLazyLocal_ctor numbered_layout int 42%Z))
          ≠ typeTag numbered_layout (token_class double)))
  ∧ (dynamicCast numbered_layout double 8%N wrapped_42 = None ↔
       _typeinfo (base_of (SimpleLazyLocal_ctor numbered_layout int 42%Z))
       = typeTag numbered_layout (token_class double)
       ∧ is_base_of_v (token_class double)
           (dynamic_type (SimpleLazyLocal_ctor numbered_layout int 42%Z))
         = false)
  ∧ (as_built numbered_layout (SimpleLazyLocal_ctor numbered_layout int 42%Z) →
     ∃ r, dynamicCast numbered_layout double 8%N wrapped_42
          = Some (r, wrapped_42)).
Proof.
  split; [split; [reflexivity|done]|].
  apply (C5_null_iff_tag_mismatch numbered_layout wrapped_42 8%N
           (SimpleLazyLocal_ctor numbered_layout int 42%Z) double);
    [reflexivity|done].
Defined.

(** The claim as first stated fails on two handles that public members
    build: a [LazyLocalBaseImpl<Counter>] built as a complete object, asked
    for a [Counter], and a copy of the base of a [SimpleLazyLocal<int>],
    asked for an [int].  Both carry the tag looked for, and neither is of
    the class; the downcast does not return. *)
Lemma C5_fault_on_mistagged_handle :
  (∃ (s : store Z) o,
     run_calls numbered_layout [NewLazyLocalBaseImpl Counter 8%N] ∅ = Some ((), s)
     ∧ s !! 8%N = Some o ∧ Counter ≠ TyLazyLocalBase
     ∧ ¬ ∃ r, dynamicCast numbered_layout Counter 8%N s = Some (r, s)
            ∧ (r = Null ↔
               _typeinfo (base_of o)
               ≠ typeTag numbered_layout (token_class Counter)))
  ∧ (∃ (s : store Z) o,
       run_calls numbered_layout
         [Written (NewSimpleLazyLocal int 42%Z 8%N); CopyConstruct 8%N 16%N] ∅
       = Some ((), s)
       ∧ s !! 16%N = Some o ∧ int ≠ TyLazyLocalBase
       ∧ ¬ ∃ r, dynamicCast numbered_layout int 16%N s = Some (r, s)
              ∧ (r = Null ↔
                 _typeinfo (base_of o)
                 ≠ typeTag numbered_layout (token_class int))).
Proof.
  split; eexists _, _; (split; [reflexivity|]); (split; [reflexivity|]);
    (split; [done|]); intros (r & H & _); by vm_compute in H.
Qed.



Lemma C7_tag_is_per_type_witness :
  isMe numbered_layout Counter 8%N two_counters = Some (true, two_counters)
  ∧ isMe numbered_layout Counter 16%N two_counters = Some (true, two_counters)
  ∧ _typeinfo (base_of (User_ctor numbered_layout "Counter" 2%Z))
    = _typeinfo (base_of (User_ctor numbered_layout "Counter" 1%Z)).
Proof.
  pose proof (C7_tag_is_per_type numbered_layout Counter 1%Z 2%Z
    (User_ctor numbered_layout "Counter" 1%Z)
    (User_ctor numbered_layout "Counter" 2%Z)
    8%N 16%N ∅ () (<[8%N := User_ctor numbered_layout "Counter" 1%Z]> ∅)
    () two_counters
    [CallDynamicCast Logger 8%N; CallEmpty 16%N] () two_counters) as H.
  destruct H as (_ & H1 & H2 & _ & _ & _ & H3);
    [reflexivity | reflexivity | reflexivity | reflexivity | reflexivity
    | apply not_elem_of_nil | apply not_elem_of_nil |].
  exact (conj H1 (conj H2 H3)).
Defined.

Lemma C8_queries_have_no_effect_witness :
  (reachable numbered_layout wrapped_42
   ∧ wrapped_42 !! 8%N = Some (SimpleLazyLocal_ctor numbered_layout int 42%Z))
  ∧ ∃ r b, dynamicCast numbered_layout int 8%N wrapped_42 = Some (r, wrapped_42)
      ∧ empty 8%N wrapped_42 = Some (b, wrapped_42)
      ∧ ∀ n, ntimes n (dynamicCast numbered_layout int 8%N) wrapped_42
             = Some (replicate n r, wrapped_42)
           ∧ ntimes n (empty 8%N) wrapped_42 = Some (replicate n b, wrapped_42).
Proof.
  pose proof wrapped_42_reachable as Hr.
  split; [split; done|].
  apply (C8_queries_have_no_effect numbered_layout wrapped_42 8%N
           (SimpleLazyLocal_ctor numbered_layout int 42%Z) int); done.
Defined.

Lemma C10_two_views_of_a_wrapper_witness :
  (int ≠ TyLazyLocalBase ∧ isDerivedFromLazyLocal int = false
   ∧ 8%N ≠ nullptr ∧ (∅ : store Z) !! 8%N = None)
  ∧ ∃ s' w r, new_SimpleLazyLocal numbered_layout int 42%Z 8%N ∅ = Some ((), s')
      ∧ int ≠ TySimpleLazyLocal int
      ∧ is_same_v TyLazyLocalBase (TySimpleLazyLocal int) = false
      ∧ isDerivedFromLazyLocal (TySimpleLazyLocal int) = true
      ∧ dynamicCast numbered_layout (TySimpleLazyLocal int) 8%N s' = Some (w, s')
      ∧ w = ObjectAt 8%N
      ∧ w ≠ Null
      ∧ dynamicCast numbered_layout int 8%N s' = Some (r, s')
      ∧ r = member_localValue w
      ∧ r ≠ Null
      ∧ deref s' r = Some 42%Z.
Proof.
  split; [repeat split; done|].
  apply (C10_two_views_of_a_wrapper numbered_layout int 42%Z 8%N ∅); done.
Defined.

(** ** The further properties on the concrete program *)

Lemma X2_wrapper_of_participating_type_witness :
  ((Counter = TyLazyLocalBase ∨ isDerivedFromLazyLocal Counter = true)
   ∧ 8%N ≠ nullptr ∧ (∅ : store Z) !! 8%N = None)
  ∧ ∃ s' r, new_SimpleLazyLocal numbered_layout Counter 7%Z 8%N ∅ = Some ((), s')
      ∧ dynamicCast numbered_layout Counter 8%N s' = Some (r, s')
      ∧ r = (if is_same_v TyLazyLocalBase Counter then ObjectAt 8%N else Null)
      ∧ deref s' r = None
      ∧ dynamicCast numbered_layout (TySimpleLazyLocal Counter) 8%N s'
        = Some (ObjectAt 8%N, s')
      ∧ deref s' (member_localValue (ObjectAt 8%N)) = Some 7%Z.
Proof.
  split; [split; [by right|split; done]|].
  apply (X2_wrapper_of_participating_type numbered_layout Counter 7%Z 8%N ∅);
    [by right | done | done].
Defined.

Lemma X3_isMe_exact_witness :
  (wrapped_42 !! 8%N = Some (SimpleLazyLocal_ctor numbered_layout int 42%Z)
   ∧ as_built numbered_layout (SimpleLazyLocal_ctor numbered_layout int 42%Z))
  ∧ ∃ b, isMe numbered_layout (TySimpleLazyLocal int) 8%N wrapped_42
         = Some (b, wrapped_42)
      ∧ (b = true ↔
         isDerivedFromLazyLocal (TySimpleLazyLocal int) = true
         ∧ is_base_of_v (TySimpleLazyLocal int)
             (dynamic_type (SimpleLazyLocal_ctor numbered_layout int 42%Z))
           = true).
Proof.
  split; [split; [reflexivity|split; reflexivity]|].
  apply (X3_isMe_exact numbered_layout wrapped_42 8%N
           (SimpleLazyLocal_ctor numbered_layout int 42%Z)
           (TySimpleLazyLocal int)); [reflexivity|split; reflexivity].
Defined.

Lemma X4_downcast_agrees_with_class_witness :
  (wrapped_42 !! 8%N = Some (SimpleLazyLocal_ctor numbered_layout int 42%Z)
   ∧ as_built numbered_layout (SimpleLazyLocal_ctor numbered_layout int 42%Z)
   ∧ int ≠ TyLazyLocalBase)
  ∧ ∃ r, dynamicCast numbered_layout int 8%N wrapped_42 = Some (r, wrapped_42)
      ∧ (r ≠ Null ↔
         is_base_of_v (token_class int)
           (dynamic_type (SimpleLazyLocal_ctor numbered_layout int 42%Z))
         = true)
      ∧ (r ≠ Null → isDerivedFromLazyLocal int = true → r = ObjectAt 8%N)
      ∧ (r ≠ Null → isDerivedFromLazyLocal int = false →
           r = LocalValueOf 8%N
           ∧ ∃ b v, SimpleLazyLocal_ctor numbered_layout int 42%Z
                    = ObjSimpleLazyLocal int b v
                  ∧ deref wrapped_42 r = Some v).
Proof.
  split; [split; [reflexivity|split; [split; reflexivity|done]]|].
  apply (X4_downcast_agrees_with_class numbered_layout wrapped_42 8%N
           (SimpleLazyLocal_ctor numbered_layout int 42%Z) int);
    [reflexivity|split; reflexivity|done].
Defined.

Lemma X5_empty_after_construction_witness :
  (16%N ≠ nullptr ∧ wrapped_42 !! 16%N = None)
  ∧ ∃ s', copy_LazyLocalBase 8%N 16%N wrapped_42 = Some ((), s')
          ∧ fst <$> empty 16%N s' = fst <$> empty 8%N wrapped_42.
Proof.
  split; [split; [done|reflexivity]|].
  destruct (X5_empty_after_construction numbered_layout 16%N wrapped_42)
    as (_ & _ & _ & _ & H); [done|reflexivity|].
  exact (H 8%N (SimpleLazyLocal_ctor numbered_layout int 42%Z) eq_refl).
Defined.

Lemma X6_answers_are_stable_witness :
  (run numbered_layout
     [NewUser "Logger" 0%Z 24%N; CallDynamicCast Logger 8%N; Delete 16%N]
     two_counters
   = Some ((), <[24%N := User_ctor numbered_layout "Logger" 0%Z]>
                 (<[8%N := User_ctor numbered_layout "Counter" 1%Z]> ∅))
   ∧ two_counters !! 8%N = Some (User_ctor numbered_layout "Counter" 1%Z)
   ∧ 8%N ∉ [16%N])
  ∧ fst <$> dynamicCast numbered_layout Counter 8%N
              (<[24%N := User_ctor numbered_layout "Logger" 0%Z]>
                 (<[8%N := User_ctor numbered_layout "Counter" 1%Z]> ∅))
    = fst <$> dynamicCast numbered_layout Counter 8%N two_counters.
Proof.
  assert (8%N ∉ [16%N]) as Hd.
  { rewrite list_elem_of_In. simpl. intuition discriminate. }
  split; [split; [reflexivity|split; [reflexivity|exact Hd]]|].
  apply (X6_answers_are_stable numbered_layout
           [NewUser "Logger" 0%Z 24%N; CallDynamicCast Logger 8%N; Delete 16%N]
           two_counters () _ 8%N (User_ctor numbered_layout "Counter" 1%Z)
           Counter Counter); [reflexivity | reflexivity | exact Hd].
Defined.

Lemma X7_one_class_per_handle_witness :
  (reachable numbered_layout wrapped_42
   ∧ wrapped_42 !! 8%N = Some (SimpleLazyLocal_ctor numbered_layout int 42%Z)
   ∧ int ≠ TyLazyLocalBase ∧ TySimpleLazyLocal int ≠ TyLazyLocalBase
   ∧ dynamicCast numbered_layout int 8%N wrapped_42
     = Some (LocalValueOf 8%N, wrapped_42)
   ∧ LocalValueOf 8%N ≠ Null
   ∧ dynamicCast numbered_layout (TySimpleLazyLocal int) 8%N wrapped_42
     = Some (ObjectAt 8%N, wrapped_42)
   ∧ ObjectAt 8%N ≠ Null)
  ∧ (int = TySimpleLazyLocal int
     ∨ int = TySimpleLazyLocal (TySimpleLazyLocal int)
     ∨ TySimpleLazyLocal int = TySimpleLazyLocal int).
Proof.
  pose proof wrapped_42_reachable as Hr.
  split; [repeat split; done|].
  apply (X7_one_class_per_handle numbered_layout wrapped_42 8%N
           (SimpleLazyLocal_ctor numbered_layout int 42%Z)
           int (TySimpleLazyLocal int) (LocalValueOf 8%N) (ObjectAt 8%N));
    done.
Defined.

Lemma X8_no_cast_to_intermediate_base_witness :
  (isDerivedFromLazyLocal Counter = true
   ∧ 8%N ≠ nullptr ∧ (∅ : store Z) !! 8%N = None)
  ∧ ∃ o s', instance_of numbered_layout Counter 1%Z = Some o
      ∧ place o 8%N ∅ = Some ((), s')
      ∧ is_base_of_v (TyLazyLocalBaseImpl Counter) (dynamic_type o) = true
      ∧ dynamicCast numbered_layout (TyLazyLocalBaseImpl Counter) 8%N s'
        = Some (Null, s').
Proof.
  split; [repeat split; done|].
  apply (X8_no_cast_to_intermediate_base numbered_layout Counter 1%Z 8%N ∅);
    done.
Defined.

Lemma X9_fault_iff_forged_tag_witness :
  int ≠ TyLazyLocalBase
  ∧ dynamicCast numbered_layout int 8%N forged_base = None.
Proof.
  split; [done|].
  apply (X9_fault_iff_forged_tag numbered_layout forged_base 8%N int); [done|].
  right. eexists. split; [reflexivity|]. split; [reflexivity|done].
Defined.

Lemma X10_empty_iff_no_typed_downcast_witness :
  wrapped_42 !! 8%N = Some (SimpleLazyLocal_ctor numbered_layout int 42%Z)
  ∧ (empty 8%N wrapped_42 = Some (true, wrapped_42) →
     ∀ T, T ≠ TyLazyLocalBase →
          dynamicCast numbered_layout T 8%N wrapped_42 = Some (Null, wrapped_42))
  ∧ (as_built numbered_layout (SimpleLazyLocal_ctor numbered_layout int 42%Z) →
     (∀ T, T ≠ TyLazyLocalBase →
           dynamicCast numbered_layout T 8%N wrapped_42 = Some (Null, wrapped_42)) →
     empty 8%N wrapped_42 = Some (true, wrapped_42)).
Proof.
  split; [reflexivity|].
  apply (X10_empty_iff_no_typed_downcast numbered_layout wrapped_42 8%N
           (SimpleLazyLocal_ctor numbered_layout int 42%Z)).
  reflexivity.
Defined.
